(** * Smart staff attendance system: door latch control and detection log

    A shallow embedding of [facial_recognition.py].  The script keeps its
    state in module-level globals and talks to a servo (through PWM duty
    cycles), a push button, the wall clock and a CSV file.  Here the
    globals, the servo command history and the CSV append history form one
    record that every procedure transforms; each clock read and each button
    sample of the script is an explicit argument of the procedure that
    performs it.

    Python floats (times, confidences) are idealised as rationals, and names
    are ASCII strings.  Frame capture, drawing, the FPS overlay and the
    release of camera and GPIO have no influence on the latch or the log and
    are left out. *)

From Stdlib Require Import List String Ascii Bool Arith ZArith QArith Qround Lia Lqa.
Import ListNotations.

(** ** Strings *)

(** [str.lower()] on ASCII text: A..Z are moved to a..z. *)
Definition lower_ascii (c : ascii) : ascii :=
  let n := nat_of_ascii c in
  if ((65 <=? n) && (n <=? 90))%nat then ascii_of_nat (n + 32) else c.

Fixpoint lower (s : string) : string :=
  match s with
  | EmptyString => EmptyString
  | String c r => String (lower_ascii c) (lower r)
  end.

Local Open Scope string_scope.
Local Open Scope list_scope.
Local Open Scope Q_scope.

(** ** Numbers *)

(** [x > y] and [x >= y] on floats, as tests. *)
Definition Qgtb (x y : Q) : bool := negb (Qle_bool x y).
Definition Qgeb (x y : Q) : bool := Qle_bool y x.

(** Nearest integer, ties to the even one. *)
Definition round_half_even (x : Q) : Z :=
  let f := Qfloor x in
  match Qcompare (x - inject_Z f) (1 # 2) with
  | Lt => f
  | Gt => (f + 1)%Z
  | Eq => if Z.even f then f else (f + 1)%Z
  end.

(** [round(x, 2)]. *)
Definition round2 (x : Q) : Q :=
  Qred (inject_Z (round_half_even (x * 100)) / 100).

(** ** Data *)

(** The value stored under a name in [detections]:
    [{"start": .., "last_seen": .., "confidence": ..}]. *)
Record Session := mkSession {
  start : Q;
  last_seen : Q;
  confidence : Q
}.

(** [detections]: a Python dict, which keeps its keys in insertion order. *)
Definition Detections := list (string * Session).

Fixpoint dict_get (k : string) (d : Detections) : option Session :=
  match d with
  | [] => None
  | (k', v) :: r => if String.eqb k k' then Some v else dict_get k r
  end.

(** [d[k] = v]: an existing key keeps its place, a new key goes last. *)
Fixpoint dict_set (k : string) (v : Session) (d : Detections) : Detections :=
  match d with
  | [] => [(k, v)]
  | (k', v') :: r =>
      if String.eqb k k' then (k, v) :: r else (k', v') :: dict_set k v r
  end.

Definition keys (d : Detections) : list string := map fst d.

(** A cell and a row handed to [csv.writer]. *)
Inductive Cell :=
| Str (s : string)
| Num (q : Q).

Definition Row := list Cell.

Definition header : Row :=
  [Str "timestamp"; Str "name"; Str "confidence"; Str "detected_duration"; Str "day"].

(** What the servo is told: duty cycle 7.5 (open position) or 2.5 (closed
    position). *)
Inductive Actuation :=
| DoorOpen
| DoorClose.

(** The globals of the script, the commands sent to the servo so far and the
    appends made to [detections_log.csv] so far, oldest first. *)
Record State := mkState {
  servo_state : bool;
  last_seen_time : Q;
  last_button_press : Q;
  last_log_time : Q;
  detections : Detections;
  pwm : list Actuation;
  csv_log : list (list Row)
}.

Definition SERVO_TIMEOUT : Q := 5.
Definition BUTTON_PRESS_TIMEOUT : Q := 5.
Definition LOG_INTERVAL : Q := 5 * 60.
Definition DEBOUNCE : Q := 1 # 2.

Definition staff : list string := ["dinith"; "isuru"; "dulaj"; "nimesh"].

(** [name.lower() in staff] *)
Definition is_staff (name : string) : bool :=
  existsb (String.eqb (lower name)) staff.

(** ** Procedures *)

(** Lines 33-54: the globals at start-up, the clock reading [t] for
    [last_log_time], and the header row appended to the CSV file. *)
Definition startup (t : Q) : State :=
  {| servo_state := false;
     last_seen_time := 0;
     last_button_press := 0;
     last_log_time := t;
     detections := [];
     pwm := [];
     csv_log := [[header]] |}.

(** [open_servo()]; [t] is its reading of [time.time()]. *)
Definition open_servo (t : Q) (s : State) : State :=
  {| servo_state := true;
     last_seen_time := t;
     last_button_press := last_button_press s;
     last_log_time := last_log_time s;
     detections := detections s;
     pwm := pwm s ++ [DoorOpen];
     csv_log := csv_log s |}.

(** [close_servo()] *)
Definition close_servo (s : State) : State :=
  {| servo_state := false;
     last_seen_time := last_seen_time s;
     last_button_press := last_button_press s;
     last_log_time := last_log_time s;
     detections := detections s;
     pwm := pwm s ++ [DoorClose];
     csv_log := csv_log s |}.

Definition set_last_seen_time (t : Q) (s : State) : State :=
  {| servo_state := servo_state s;
     last_seen_time := t;
     last_button_press := last_button_press s;
     last_log_time := last_log_time s;
     detections := detections s;
     pwm := pwm s;
     csv_log := csv_log s |}.

Definition set_last_button_press (t : Q) (s : State) : State :=
  {| servo_state := servo_state s;
     last_seen_time := last_seen_time s;
     last_button_press := t;
     last_log_time := last_log_time s;
     detections := detections s;
     pwm := pwm s;
     csv_log := csv_log s |}.

Definition set_last_log_time (t : Q) (s : State) : State :=
  {| servo_state := servo_state s;
     last_seen_time := last_seen_time s;
     last_button_press := last_button_press s;
     last_log_time := t;
     detections := detections s;
     pwm := pwm s;
     csv_log := csv_log s |}.

Definition set_detections (d : Detections) (s : State) : State :=
  {| servo_state := servo_state s;
     last_seen_time := last_seen_time s;
     last_button_press := last_button_press s;
     last_log_time := last_log_time s;
     detections := d;
     pwm := pwm s;
     csv_log := csv_log s |}.

(** Lines 108-113 of [draw_results]: one sighting of [name] at [t] folded
    into the dict. *)
Definition record_sighting (name : string) (conf t : Q) (d : Detections) : Detections :=
  if negb (String.eqb name "Unknown") then
    match dict_get name d with
    | None => dict_set name {| start := t; last_seen := t; confidence := conf |} d
    | Some info => dict_set name {| start := start info; last_seen := t; confidence := conf |} d
    end
  else d.

(** One turn of the [for] loop of [draw_results] (lines 103-113), on the
    local [detected_staff] and the globals. *)
Definition draw_face (current_time : Q) (acc : bool * State) (face : string * Q) : bool * State :=
  let '(detected_staff, s) := acc in
  let '(name, conf) := face in
  let '(detected_staff, s) :=
    if is_staff name then (true, set_last_seen_time current_time s)
    else (detected_staff, s) in
  (detected_staff, set_detections (record_sighting name conf current_time (detections s)) s).

(** [draw_results]: [faces] are the names zipped with their confidences,
    [current_time] is the clock read at line 89, [t_open] the one inside
    [open_servo] and [pressed] the button sample of line 119. *)
Definition draw_results (current_time t_open : Q) (pressed : bool)
    (faces : list (string * Q)) (s : State) : State :=
  let '(detected_staff, s) := fold_left (draw_face current_time) faces (false, s) in
  if detected_staff && negb (servo_state s) then open_servo t_open s
  else if servo_state s
          && Qgtb (current_time - last_seen_time s) SERVO_TIMEOUT
          && negb pressed
       then close_servo s
  else s.

(** The row written for one entry of [detections] (lines 128-129). *)
Definition session_row (now day : string) (e : string * Session) : Row :=
  [Str now; Str (fst e); Num (confidence (snd e));
   Num (round2 (last_seen (snd e) - start (snd e))); Str day].

Definition session_rows (now day : string) (d : Detections) : list Row :=
  map (session_row now day) d.

(** [log_detections()]; [now] and [day] are the two formatted readings of
    [datetime.now()]. *)
Definition log_detections (now day : string) (s : State) : State :=
  let rows := session_rows now day (detections s) in
  {| servo_state := servo_state s;
     last_seen_time := last_seen_time s;
     last_button_press := last_button_press s;
     last_log_time := last_log_time s;
     detections := [];
     pwm := pwm s;
     csv_log := match rows with
                | [] => csv_log s
                | _ :: _ => csv_log s ++ [rows]
                end |}.

(** Lines 154-160: button control.  [pressed] is the sample of line 155,
    [current_time] the clock read of line 156, [t_open] the one inside
    [open_servo]. *)
Definition button_control (pressed : bool) (current_time t_open : Q) (s : State) : State :=
  if pressed then
    if Qgtb (current_time - last_button_press s) DEBOUNCE
    then open_servo t_open (set_last_button_press current_time s)
    else s
  else s.

(** Lines 162-164: auto close after button timeout. *)
Definition auto_close (t : Q) (pressed : bool) (s : State) : State :=
  if servo_state s && Qgtb (t - last_seen_time s) BUTTON_PRESS_TIMEOUT && negb pressed
  then close_servo s
  else s.

(** Lines 174-177: logging every five minutes. *)
Definition periodic_log (t : Q) (now day : string) (t' : Q) (s : State) : State :=
  if Qgeb (t - last_log_time s) LOG_INTERVAL
  then set_last_log_time t' (log_detections now day s)
  else s.

(** Everything one pass through the [while] body reads from outside, in
    the order of the reads. *)
Record Reads := mkReads {
  faces : list (string * Q);   (* process_frame: names with confidences *)
  t_draw : Q;                  (* line 89 *)
  t_open_draw : Q;             (* line 61, called from line 117 *)
  b_draw : bool;               (* line 119 *)
  b_main : bool;               (* line 155 *)
  t_button : Q;                (* line 156 *)
  t_open_button : Q;           (* line 61, called from line 160 *)
  t_auto : Q;                  (* line 163 *)
  b_auto : bool;               (* line 163 *)
  t_log : Q;                   (* line 175 *)
  log_now : string;            (* line 123 *)
  log_day : string;            (* line 124 *)
  t_logged : Q;                (* line 177 *)
  key_q : bool                 (* line 179 *)
}.

(** The decision part of the [while] body, lines 151-164. *)
Definition control (r : Reads) (s : State) : State :=
  auto_close (t_auto r) (b_auto r)
    (button_control (b_main r) (t_button r) (t_open_button r)
       (draw_results (t_draw r) (t_open_draw r) (b_draw r) (faces r) s)).

(** The [while] body after a successful [camera.read()]. *)
Definition loop_body (r : Reads) (s : State) : State :=
  periodic_log (t_log r) (log_now r) (log_day r) (t_logged r) (control r s).

(** What one pass through the loop meets: no frame, or a frame and the
    reads that go with it. *)
Inductive Iteration :=
| CameraLost
| Frame (r : Reads).

Inductive Outcome :=
| Running (s : State)     (* still inside the loop *)
| Exited (s : State).     (* [break] was reached *)

(** The [while True] loop over the passes that have happened so far. *)
Fixpoint main_loop (its : list Iteration) (s : State) : Outcome :=
  match its with
  | [] => Running s
  | CameraLost :: _ => Exited s
  | Frame r :: rest =>
      let s' := loop_body r s in
      if key_q r then Exited s' else main_loop rest s'
  end.

(** The [finally] block: [log_detections()], then [close_servo()]. *)
Definition finally (now day : string) (s : State) : State :=
  close_servo (log_detections now day s).

(** The script from line 33 on: [t0] is the clock at start-up, [now] and
    [day] are the labels read by the last [log_detections()].  [None] while
    the loop has not been left. *)
Definition script (t0 : Q) (its : list Iteration) (now day : string) : option State :=
  match main_loop its (startup t0) with
  | Running _ => None
  | Exited s => Some (finally now day s)
  end.

(** The file after the script has made the appends of [s] to a file that
    held [before]. *)
Definition csv_file (before : list Row) (s : State) : list Row :=
  before ++ List.concat (csv_log s).

(** ** A tick: one pass with a single clock reading and a single button
    sample *)

Record Tick := mkTick {
  results : list (string * Q);
  button : bool;
  now : Q
}.

(** The reads of a pass in which the clock shows [now i] throughout and the
    button is [button i] at every sample. *)
Definition reads_of (i : Tick) : Reads :=
  {| faces := results i;
     t_draw := now i; t_open_draw := now i; b_draw := button i;
     b_main := button i; t_button := now i; t_open_button := now i;
     t_auto := now i; b_auto := button i;
     t_log := now i; log_now := ""; log_day := ""; t_logged := now i;
     key_q := false |}.

(** The decision part of such a pass; the logging that follows it leaves
    latch, timers and servo as they are. *)
Definition tick (s : State) (i : Tick) : State := control (reads_of i) s.


(** The servo commands issued on the way from [s] to [s']. *)
Definition issued (s s' : State) : list Actuation :=
  skipn (List.length (pwm s)) (pwm s').

(** [any(name.lower() in staff ...)] over one frame's results. *)
Definition trusted_detected (rs : list (string * Q)) : bool :=
  existsb (fun r => is_staff (fst r)) rs.

(** A press is taken when the button is down and more than the debounce
    interval has passed since the last press taken. *)
Definition press_accepted (s : State) (i : Tick) : bool :=
  button i && Qgtb (now i - last_button_press s) DEBOUNCE.

(** ** Notions used in the statements *)

(** The dict after all the faces of one frame. *)
Definition record_all (t : Q) (fs : list (string * Q)) (d : Detections) : Detections :=
  fold_left (fun d f => record_sighting (fst f) (snd f) t d) fs d.

(** The state after the [for] loop of [draw_results] in a tick. *)
Definition after_faces (s : State) (i : Tick) : State :=
  {| servo_state := servo_state s;
     last_seen_time := if trusted_detected (results i) then now i else last_seen_time s;
     last_button_press := last_button_press s;
     last_log_time := last_log_time s;
     detections := record_all (now i) (results i) (detections s);
     pwm := pwm s;
     csv_log := csv_log s |}.

(** The auto-close test on the state the tick started from. *)
Definition timed_out (s : State) (i : Tick) : bool :=
  Qgtb (now i - last_seen_time s) SERVO_TIMEOUT.

(** *** Servo commands *)




(** *** Histories of ticks *)







(** *** Leaving the loop *)

(** A pass after which the loop goes round again. *)
Definition continues (it : Iteration) : Prop :=
  match it with
  | CameraLost => False
  | Frame r => key_q r = false
  end.

(** The state after the passes [pre], none of which leaves the loop. *)
Definition passes (pre : list Iteration) (s : State) : State :=
  fold_left (fun s it => match it with
                         | CameraLost => s
                         | Frame r => loop_body r s
                         end) pre s.

(** What the loop has reached after [its]: the state inside the loop, or the
    state after the [finally] block. *)
Definition state_after (its : list Iteration) (now day : string) (s : State) : State :=
  match main_loop its s with
  | Running s' => s'
  | Exited s' => finally now day s'
  end.

(** *** Sequences of sightings *)

(** One sighting handed to lines 108-113. *)
Record Sighting := mkSighting {
  who : string;
  conf : Q;
  seen_at : Q
}.

Definition record_ops (ops : list Sighting) (d : Detections) : Detections :=
  fold_left (fun d o => record_sighting (who o) (conf o) (seen_at o) d) ops d.

Fixpoint nondecreasing_from (t : Q) (ops : list Sighting) : Prop :=
  match ops with
  | [] => True
  | o :: r => t <= seen_at o /\ nondecreasing_from (seen_at o) r
  end.

Definition nondecreasing (ops : list Sighting) : Prop :=
  match ops with
  | [] => True
  | o :: r => nondecreasing_from (seen_at o) r
  end.

(** How often [name] occurs in [ops]. *)
Definition sightings (name : string) (ops : list Sighting) : nat :=
  List.length (filter (fun o => String.eqb (who o) name) ops).

(** The duration cell of a row. *)
Definition duration_of (r : Row) : option Q :=
  match nth_error r 3 with
  | Some (Num q) => Some q
  | _ => None
  end.

(** Keys are distinct and every entry ends no earlier than it starts and
    no later than [tmax]. *)
Definition sessions_ok (d : Detections) (tmax : Q) : Prop :=
  NoDup (keys d)
  /\ forall k v, In (k, v) d -> start v <= last_seen v /\ last_seen v <= tmax.

(** *** The CSV file *)

(** A row of five text cells spelling the column names. *)
Definition is_header (r : Row) : bool :=
  match r with
  | [Str a; Str b; Str c; Str d; Str e] =>
      String.eqb a "timestamp" && String.eqb b "name" && String.eqb c "confidence"
      && String.eqb d "detected_duration" && String.eqb e "day"
  | _ => false
  end.

Definition headers (f : list Row) : nat := List.length (filter is_header f).

(** The appends of one run are the header and then data rows only. *)
Definition header_then_data (s : State) : Prop :=
  exists rows, List.concat (csv_log s) = header :: rows
               /\ Forall (fun r => is_header r = false) rows.

(** ** Naming the faces of a frame *)

(** [np.argmin] on a one-dimensional array, scanning from position [i] with
    the best position [best] and its value [bv] so far: a later element wins
    only when it is strictly smaller, so the first minimum is returned. *)
Fixpoint argmin_from (best : nat) (bv : Q) (i : nat) (l : list Q) : nat :=
  match l with
  | [] => best
  | x :: r =>
      if Qgtb bv x then argmin_from i x (S i) r
      else argmin_from best bv (S i) r
  end.

(** [np.argmin(distances)]; an empty array raises [ValueError]. *)
Definition argmin (l : list Q) : option nat :=
  match l with
  | [] => None
  | x :: r => Some (argmin_from 0 x 1 r)
  end.

(** The body of the [for] loop of [process_frame] (lines 78-81):
    [distances] is what [face_distance] returns for one encoding, one
    distance per known encoding.  [None] stands for the exception raised by
    [argmin] or by the list index. *)
Definition match_face (known_face_names : list string) (distances : list Q)
    : option (string * Q) :=
  match argmin distances with
  | None => None
  | Some best_match_index =>
      let confidence := round2 ((1 - nth best_match_index distances 0) * 100) in
      if Qgtb confidence 50 then
        match nth_error known_face_names best_match_index with
        | Some name => Some (name, confidence)
        | None => None
        end
      else Some ("Unknown", confidence)
  end.

(** ** Notions used in further statements *)

(** The position the servo was last told to take; closed before any command,
    as [servo_state] is at start-up. *)
Definition commanded (cmds : list Actuation) : bool :=
  match last cmds DoorClose with
  | DoorOpen => true
  | DoorClose => false
  end.

(** The name cell of a row. *)
Definition name_of (r : Row) : option string :=
  match nth_error r 1 with
  | Some (Str n) => Some n
  | _ => None
  end.

(** The names of the faces of a frame that are not ["Unknown"]. *)
Definition named (fs : list (string * Q)) : list string :=
  filter (fun n => negb (String.eqb n "Unknown")) (map fst fs).

(** The names seen, other than ["Unknown"], in the passes made before the
    loop is left; the pass in which [q] is pressed is made in full. *)
Fixpoint seen_in (its : list Iteration) : list string :=
  match its with
  | [] => []
  | CameraLost :: _ => []
  | Frame r :: rest => named (faces r) ++ (if key_q r then [] else seen_in rest)
  end.

(** The sightings of [name] in [ops], oldest first. *)
Definition sightings_of (name : string) (ops : list Sighting) : list Sighting :=
  filter (fun o => String.eqb (who o) name) ops.


(** * Properties *)

(** ** Examples *)

Example ex_lower : lower "IsuRu" = "isuru".
Proof. reflexivity. Qed.

Example ex_round2 : round2 (12 - 0) = 12.
Proof. reflexivity. Qed.

Example ex_round2_small : round2 (1 # 250) = 0.
Proof. reflexivity. Qed.

Example ex_close_after_timeout :
  let s := tick (startup 0) {| results := [("Isuru", 90)]; button := false; now := 10 |} in
  issued s (tick s {| results := [("Unknown", 20)]; button := false; now := 31 # 2 |})
  = [DoorClose]
  /\ issued s (tick s {| results := [("Unknown", 20)]; button := false; now := 29 # 2 |})
     = []
  /\ issued s (tick s {| results := []; button := true; now := 31 # 2 |})
     = [DoorOpen].
Proof. repeat split. Qed.

Example ex_tick_open :
  pwm (tick (startup 0) {| results := [("Isuru", 90)]; button := false; now := 10 |})
  = [DoorOpen].
Proof. reflexivity. Qed.

(** ** Comparisons *)

Lemma Qgtb_true (x y : Q) : Qgtb x y = true <-> y < x.
Proof.
  unfold Qgtb. rewrite negb_true_iff, <- not_true_iff_false, Qle_bool_iff.
  split; intro H; [apply Qnot_le_lt | apply Qlt_not_le]; exact H.
Qed.

Lemma Qgtb_false (x y : Q) : Qgtb x y = false <-> x <= y.
Proof.
  unfold Qgtb. rewrite negb_false_iff. apply Qle_bool_iff.
Qed.

Lemma Qgtb_same (t c : Q) : 0 <= c -> Qgtb (t - t) c = false.
Proof. intro H. apply Qgtb_false. lra. Qed.

Lemma Qgtb_same_servo (t : Q) : Qgtb (t - t) SERVO_TIMEOUT = false.
Proof. apply Qgtb_same. unfold SERVO_TIMEOUT. lra. Qed.

(** ** The loop of [draw_results] *)

Lemma draw_face_eq (t : Q) (b : bool) (s : State) (name : string) (conf : Q) :
  draw_face t (b, s) (name, conf) =
  (b || is_staff name,
   {| servo_state := servo_state s;
      last_seen_time := if is_staff name then t else last_seen_time s;
      last_button_press := last_button_press s;
      last_log_time := last_log_time s;
      detections := record_sighting name conf t (detections s);
      pwm := pwm s;
      csv_log := csv_log s |}).
Proof.
  unfold draw_face. destruct (is_staff name).
  - now rewrite orb_true_r.
  - now rewrite orb_false_r.
Qed.

Lemma draw_faces (t : Q) (fs : list (string * Q)) :
  forall (b : bool) (s : State),
    fold_left (draw_face t) fs (b, s) =
    (b || trusted_detected fs,
     {| servo_state := servo_state s;
        last_seen_time := if trusted_detected fs then t else last_seen_time s;
        last_button_press := last_button_press s;
        last_log_time := last_log_time s;
        detections := record_all t fs (detections s);
        pwm := pwm s;
        csv_log := csv_log s |}).
Proof.
  induction fs as [|[name conf] fs IH]; intros b s.
  - destruct s; simpl. now rewrite orb_false_r.
  - cbn [fold_left]. rewrite draw_face_eq, IH.
    unfold trusted_detected, record_all.
    cbn [existsb fold_left fst snd servo_state last_seen_time last_button_press
         last_log_time detections pwm csv_log].
    rewrite orb_assoc.
    destruct (is_staff name); cbn [orb]; [|reflexivity].
    now destruct (existsb _ fs).
Qed.

Lemma draw_results_eq (t t_open : Q) (pressed : bool) (fs : list (string * Q)) (s : State) :
  draw_results t t_open pressed fs s =
  let s1 := {| servo_state := servo_state s;
               last_seen_time := if trusted_detected fs then t else last_seen_time s;
               last_button_press := last_button_press s;
               last_log_time := last_log_time s;
               detections := record_all t fs (detections s);
               pwm := pwm s;
               csv_log := csv_log s |} in
  if trusted_detected fs && negb (servo_state s) then open_servo t_open s1
  else if servo_state s && Qgtb (t - last_seen_time s1) SERVO_TIMEOUT && negb pressed
       then close_servo s1
  else s1.
Proof.
  unfold draw_results. rewrite draw_faces. reflexivity.
Qed.

(** Simplification of a goal about one pass: fields of updated states are
    computed, and the clock tests are split one at a time, innermost first. *)
Ltac pass_simpl :=
  cbn [andb negb orb servo_state last_seen_time last_button_press last_log_time
       detections pwm csv_log open_servo close_servo set_last_button_press
       set_last_seen_time];
  rewrite ?andb_false_r, ?andb_true_r, ?Qgtb_same_servo.

Ltac split_test :=
  match goal with
  | |- context [Qgtb ?a ?b] =>
      lazymatch a with
      | context [if _ then _ else _] => fail
      | _ => destruct (Qgtb a b) eqn:?
      end
  end.

Ltac pass_cases := repeat (progress pass_simpl || split_test).

(** ** One tick, case by case *)

Lemma tick_eq (s : State) (i : Tick) :
  tick s i =
  if trusted_detected (results i) && negb (servo_state s) then
    if press_accepted s i
    then open_servo (now i)
           (set_last_button_press (now i) (open_servo (now i) (after_faces s i)))
    else open_servo (now i) (after_faces s i)
  else if servo_state s && negb (trusted_detected (results i))
          && timed_out s i && negb (button i)
       then close_servo (after_faces s i)
  else if press_accepted s i
       then open_servo (now i) (set_last_button_press (now i) (after_faces s i))
  else after_faces s i.
Proof.
  unfold tick, control, auto_close, button_control, press_accepted, timed_out.
  rewrite draw_results_eq.
  cbn [reads_of faces t_draw t_open_draw b_draw b_main t_button t_open_button
       t_auto b_auto].
  unfold after_faces. change BUTTON_PRESS_TIMEOUT with SERVO_TIMEOUT.
  destruct (trusted_detected (results i)), (servo_state s), (button i);
    pass_cases; first [reflexivity | discriminate].
Qed.

(** ** Commands issued *)

Lemma skipn_past {A : Type} (l l' : list A) : skipn (List.length l) (l ++ l') = l'.
Proof. induction l; simpl; auto. Qed.

Ltac issued_simpl :=
  unfold issued; cbn [pwm open_servo close_servo set_last_button_press];
  rewrite <- ?app_assoc, ?skipn_past, ?skipn_all; cbn [app].

(** Logging touches neither the latch, nor its timers, nor the servo. *)
Lemma loop_body_latch (r : Reads) (s : State) :
  servo_state (loop_body r s) = servo_state (control r s)
  /\ last_seen_time (loop_body r s) = last_seen_time (control r s)
  /\ last_button_press (loop_body r s) = last_button_press (control r s)
  /\ pwm (loop_body r s) = pwm (control r s).
Proof.
  unfold loop_body, periodic_log.
  destruct (Qgeb _ _); repeat split; reflexivity.
Qed.

(** The commands of a tick. *)
Lemma tick_issued (s : State) (i : Tick) :
  issued s (tick s i) =
  if trusted_detected (results i) && negb (servo_state s) then
    if press_accepted s i then [DoorOpen; DoorOpen] else [DoorOpen]
  else if servo_state s && negb (trusted_detected (results i))
          && timed_out s i && negb (button i)
       then [DoorClose]
  else if press_accepted s i then [DoorOpen]
  else [].
Proof.
  rewrite tick_eq.
  repeat match goal with
         | |- context [if ?c then _ else _] => destruct c
         end;
    unfold after_faces; issued_simpl; reflexivity.
Qed.

Lemma tick_servo_state (s : State) (i : Tick) :
  servo_state (tick s i) =
  if trusted_detected (results i) && negb (servo_state s) then true
  else if servo_state s && negb (trusted_detected (results i))
          && timed_out s i && negb (button i)
       then false
  else if press_accepted s i then true
  else servo_state s.
Proof.
  rewrite tick_eq.
  repeat match goal with
         | |- context [if ?c then _ else _] => destruct c
         end; reflexivity.
Qed.

Lemma tick_last_seen_time (s : State) (i : Tick) :
  last_seen_time (tick s i) =
  if trusted_detected (results i) || press_accepted s i then now i
  else last_seen_time s.
Proof.
  rewrite tick_eq. unfold press_accepted, timed_out, after_faces.
  destruct (trusted_detected (results i)), (servo_state s), (button i);
    pass_cases; reflexivity.
Qed.

Lemma tick_last_button_press (s : State) (i : Tick) :
  last_button_press (tick s i) =
  if press_accepted s i then now i else last_button_press s.
Proof.
  rewrite tick_eq. unfold press_accepted, timed_out, after_faces.
  destruct (trusted_detected (results i)), (servo_state s), (button i);
    pass_cases; reflexivity.
Qed.

Lemma tick_detections (s : State) (i : Tick) :
  detections (tick s i) = record_all (now i) (results i) (detections s).
Proof.
  rewrite tick_eq.
  repeat match goal with
         | |- context [if ?c then _ else _] => destruct c
         end; reflexivity.
Qed.

(** ** The decision engine *)

Lemma is_staff_Unknown : is_staff "Unknown" = false.
Proof. reflexivity. Qed.

Lemma no_trusted_face (fs : list (string * Q)) :
  (forall name conf, In (name, conf) fs -> name = "Unknown" \/ is_staff name = false) ->
  trusted_detected fs = false.
Proof.
  intro H. unfold trusted_detected.
  apply not_true_is_false. intro E.
  apply existsb_exists in E. destruct E as [[name conf] [Hin Hs]].
  destruct (H name conf Hin) as [-> | Hn]; cbn [fst] in Hs.
  - rewrite is_staff_Unknown in Hs. discriminate.
  - congruence.
Qed.




(** C2, as the code has it.  A tick issues at most two servo commands; two
    only when a trusted face opens a closed latch and a taken button press
    sends [open] again in the same tick; a tick without a taken press issues
    at most one. *)
Theorem tick_at_most_two_commands (s : State) (i : Tick) :
  (List.length (issued s (tick s i)) <= 2)%nat
  /\ (press_accepted s i = false -> (List.length (issued s (tick s i)) <= 1)%nat)
  /\ (List.length (issued s (tick s i)) = 2%nat ->
      servo_state s = false /\ trusted_detected (results i) = true
      /\ press_accepted s i = true /\ issued s (tick s i) = [DoorOpen; DoorOpen]).
Proof.
  rewrite tick_issued.
  destruct (trusted_detected (results i)), (servo_state s), (press_accepted s i),
    (timed_out s i), (button i); cbn; repeat split; intros;
    first [lia | discriminate | reflexivity].
Qed.

Lemma tick_at_most_two_commands_witness :
  let s := startup 0 in
  let i := {| results := [("Isuru", 90)]; button := false; now := 10 |} in
  let j := {| results := [("Isuru", 90)]; button := true; now := 10 |} in
  (press_accepted s i = false /\ (List.length (issued s (tick s i)) <= 1)%nat)
  /\ (List.length (issued s (tick s j)) = 2%nat
      /\ issued s (tick s j) = [DoorOpen; DoorOpen]).
Proof.
  intros s i j. split; split.
  - reflexivity.
  - apply (proj1 (proj2 (tick_at_most_two_commands s i))). reflexivity.
  - reflexivity.
  - apply (proj2 (proj2 (tick_at_most_two_commands s j))). reflexivity.
Defined.

(** C2 fails as stated: with the latch closed, a trusted face and a pressed
    button in one tick give two [open] commands. *)
Lemma two_commands_in_one_tick :
  issued (startup 0)
    (tick (startup 0) {| results := [("isuru", 90)]; button := true; now := 10 |})
  = [DoorOpen; DoorOpen].
Proof. reflexivity. Qed.

(** C4.  A pass whose faces are all ["Unknown"] or outside the roster
    (compared in lower case), entered with the latch closed and the button
    not pressed, sends no command and leaves the latch closed. *)
Theorem unknown_faces_keep_latch_closed (r : Reads) (s : State) :
  servo_state s = false ->
  b_main r = false ->
  (forall name conf, In (name, conf) (faces r) ->
     name = "Unknown" \/ is_staff name = false) ->
  issued s (loop_body r s) = [] /\ servo_state (loop_body r s) = false.
Proof.
  intros O B U. apply no_trusted_face in U.
  destruct (loop_body_latch r s) as (Hs & _ & _ & Hp).
  rewrite Hs. unfold issued. rewrite Hp.
  unfold control, auto_close, button_control.
  rewrite draw_results_eq, U, O, B. cbn [andb negb]. pass_simpl.
  split; [apply skipn_all | reflexivity].
Qed.

Lemma unknown_faces_keep_latch_closed_witness :
  let r := reads_of {| results := [("Unknown", 31); ("Kamal", 77)];
                       button := false; now := 10 |} in
  issued (startup 0) (loop_body r (startup 0)) = []
  /\ servo_state (loop_body r (startup 0)) = false.
Proof.
  intro r. apply (unknown_faces_keep_latch_closed r (startup 0)).
  - reflexivity.
  - reflexivity.
  - intros name conf [E | [E | []]]; inversion E; [left | right]; reflexivity.
Defined.

(** C10.  A press taken while the latch is open: [button_control] leaves
    the latch open, sets [last_button_press] to its clock reading and
    [last_seen_time] to the reading made inside [open_servo], sends [open]
    again, and leaves [detections] alone.  In a tick, where both readings
    are [now], that is all the tick sends, and the sessions are changed by
    the faces of the frame only. *)
Theorem press_on_open_latch (s : State) :
  servo_state s = true ->
  (forall t t_open,
     DEBOUNCE < t - last_button_press s ->
     let s' := button_control true t t_open s in
     servo_state s' = true /\ last_button_press s' = t /\ last_seen_time s' = t_open
     /\ issued s s' = [DoorOpen] /\ detections s' = detections s)
  /\ (forall i,
     button i = true -> DEBOUNCE < now i - last_button_press s ->
     servo_state (tick s i) = true /\ last_button_press (tick s i) = now i
     /\ last_seen_time (tick s i) = now i /\ issued s (tick s i) = [DoorOpen]
     /\ detections (tick s i) = record_all (now i) (results i) (detections s)).
Proof.
  intro O. split.
  - intros t t_open H s'. subst s'. unfold button_control.
    apply Qgtb_true in H. rewrite H. repeat split. issued_simpl. reflexivity.
  - intros i B H. apply Qgtb_true in H.
    assert (P : press_accepted s i = true) by (unfold press_accepted; now rewrite B, H).
    rewrite tick_servo_state, tick_last_button_press, tick_last_seen_time,
      tick_issued, tick_detections, P, O, B, orb_true_r.
    rewrite !andb_false_r. cbn. repeat split.
Qed.

Lemma press_on_open_latch_witness :
  let s := tick (startup 0) {| results := [("Isuru", 90)]; button := false; now := 10 |} in
  let i := {| results := []; button := true; now := 11 |} in
  servo_state s = true
  /\ servo_state (tick s i) = true /\ last_button_press (tick s i) = 11
  /\ last_seen_time (tick s i) = 11 /\ issued s (tick s i) = [DoorOpen]
  /\ detections (tick s i) = record_all 11 [] (detections s).
Proof.
  intros s i.
  assert (O : servo_state s = true) by reflexivity.
  split; [exact O|].
  apply (proj2 (press_on_open_latch s O) i).
  - reflexivity.
  - reflexivity.
Defined.

(** ** Closing on time-out *)











(** ** Leaving the loop *)

Lemma main_loop_app (pre rest : list Iteration) :
  Forall continues pre ->
  forall s, main_loop (pre ++ rest) s = main_loop rest (passes pre s).
Proof.
  induction 1 as [|it pre Hit _ IH]; intro s.
  - reflexivity.
  - destruct it as [|r]; [contradiction|].
    cbn in Hit. cbn [app main_loop passes fold_left]. rewrite Hit. apply IH.
Qed.

Lemma finally_effect (now day : string) (s : State) :
  detections (finally now day s) = []
  /\ (forall e, In e (detections s) ->
        In (session_row now day e) (List.concat (csv_log (finally now day s))))
  /\ pwm (finally now day s) = pwm s ++ [DoorClose]
  /\ servo_state (finally now day s) = false.
Proof.
  repeat split. intros e He. cbn.
  assert (Hr : In (session_row now day e) (session_rows now day (detections s)))
    by (apply in_map; exact He).
  destruct (session_rows now day (detections s)) as [|r rows] eqn:E.
  - destruct Hr.
  - rewrite concat_app. apply in_or_app. right. cbn [List.concat].
    rewrite app_nil_r. exact Hr.
Qed.

(** The loop is left in one of two ways only. *)
Lemma main_loop_exit (its : list Iteration) :
  forall s s', main_loop its s = Exited s' ->
  exists pre rest,
    Forall continues pre
    /\ ((its = pre ++ CameraLost :: rest /\ s' = passes pre s)
        \/ (exists r, key_q r = true /\ its = pre ++ Frame r :: rest
                      /\ s' = loop_body r (passes pre s))).
Proof.
  induction its as [|[|r] its IH]; intros s s' H; cbn [main_loop] in H.
  - discriminate.
  - inversion H; subst. exists [], its. split; [constructor|]. now left.
  - destruct (key_q r) eqn:K.
    + inversion H; subst. exists [], its. split; [constructor|].
      right. exists r. repeat split. exact K.
    + destruct (IH _ _ H) as (pre & rest & Hpre & Hcase).
      exists (Frame r :: pre), rest. split; [constructor; assumption|].
      destruct Hcase as [[-> ->] | (r' & K' & -> & ->)].
      * now left.
      * right. exists r'. repeat split. exact K'.
Qed.

(** C5.  The loop is left when the camera gives no frame or when [q] is
    pressed, and in no other way; either way the script goes on to the
    [finally] block, which writes a row for every entry of [detections],
    empties the dict and sends the close command last, whatever the latch
    position was. *)
Theorem shutdown_on_every_exit
    (t0 : Q) (pre rest : list Iteration) (now day : string) :
  Forall continues pre ->
  let s := passes pre (startup t0) in
  script t0 (pre ++ CameraLost :: rest) now day = Some (finally now day s)
  /\ (forall r, key_q r = true ->
        script t0 (pre ++ Frame r :: rest) now day
        = Some (finally now day (loop_body r s)))
  /\ (forall its s', main_loop its (startup t0) = Exited s' ->
        script t0 its now day = Some (finally now day s')
        /\ exists pre' rest',
             Forall continues pre'
             /\ ((its = pre' ++ CameraLost :: rest' /\ s' = passes pre' (startup t0))
                 \/ (exists r, key_q r = true /\ its = pre' ++ Frame r :: rest'
                               /\ s' = loop_body r (passes pre' (startup t0)))))
  /\ (forall s' : State,
        detections (finally now day s') = []
        /\ (forall e, In e (detections s') ->
              In (session_row now day e) (List.concat (csv_log (finally now day s'))))
        /\ pwm (finally now day s') = pwm s' ++ [DoorClose]
        /\ servo_state (finally now day s') = false).
Proof.
  intros Hpre s. unfold script. split; [|split; [|split]].
  - rewrite (main_loop_app pre _ Hpre). reflexivity.
  - intros r Hq. rewrite (main_loop_app pre _ Hpre).
    cbn [main_loop]. rewrite Hq. reflexivity.
  - intros its s' H. split; [now rewrite H | now apply main_loop_exit].
  - intro s'. apply finally_effect.
Qed.

Lemma shutdown_on_every_exit_witness :
  let r := reads_of {| results := [("Isuru", 90)]; button := false; now := 10 |} in
  Forall continues [Frame r]
  /\ script 0 ([Frame r] ++ CameraLost :: []) "2025-01-01 08:00:00" "2025-01-01"
     = Some (finally "2025-01-01 08:00:00" "2025-01-01" (passes [Frame r] (startup 0))).
Proof.
  intro r.
  assert (H : Forall continues [Frame r]) by (repeat constructor).
  split; [exact H|].
  apply (proj1 (shutdown_on_every_exit 0 [Frame r] [] "2025-01-01 08:00:00"
                  "2025-01-01" H)).
Defined.

Example ex_camera_lost_while_open :
  let r := reads_of {| results := [("Isuru", 90)]; button := false; now := 10 |} in
  option_map (fun s => (servo_state s, pwm s, List.concat (csv_log s), detections s))
    (script 0 [Frame r; CameraLost] "2025-01-01 08:00:00" "2025-01-01")
  = Some (false, [DoorOpen; DoorClose],
          [header;
           [Str "2025-01-01 08:00:00"; Str "Isuru"; Num 90; Num 0; Str "2025-01-01"]],
          []).
Proof. reflexivity. Qed.

(** ** Rounding *)

Lemma round_half_even_near (y : Q) :
  inject_Z (round_half_even y) - y <= 1 # 2 /\ y - inject_Z (round_half_even y) <= 1 # 2.
Proof.
  unfold round_half_even.
  pose proof (Qfloor_le y) as Hlo. pose proof (Qlt_floor y) as Hhi.
  rewrite inject_Z_plus in Hhi. change (inject_Z 1) with 1 in Hhi.
  destruct (Qcompare (y - inject_Z (Qfloor y)) (1 # 2)) eqn:C.
  - apply Qeq_alt in C. destruct (Z.even (Qfloor y));
      rewrite ?inject_Z_plus; change (inject_Z 1) with 1; lra.
  - apply Qlt_alt in C. lra.
  - apply Qgt_alt in C. rewrite inject_Z_plus. change (inject_Z 1) with 1. lra.
Qed.

Lemma round_half_even_nonneg (y : Q) : 0 <= y -> (0 <= round_half_even y)%Z.
Proof.
  intro H. apply Qfloor_resp_le in H. change (Qfloor 0) with 0%Z in H.
  unfold round_half_even.
  destruct (Qcompare _ _); [destruct (Z.even _)| |]; lia.
Qed.

Lemma round_half_even_eq (x y : Q) : x == y -> round_half_even x = round_half_even y.
Proof.
  intro E. unfold round_half_even. rewrite (Qfloor_comp x y E).
  assert (C : Qcompare (x - inject_Z (Qfloor y)) (1 # 2)
              = Qcompare (y - inject_Z (Qfloor y)) (1 # 2)).
  { apply Qcompare_comp; [rewrite E|]; reflexivity. }
  now rewrite C.
Qed.

Lemma round_half_even_Z (n : Z) : round_half_even (inject_Z n) = n.
Proof.
  unfold round_half_even. rewrite Qfloor_Z.
  assert (C : Qcompare (inject_Z n - inject_Z n) (1 # 2) = Lt).
  { rewrite <- Qlt_alt. generalize (inject_Z n). intro q. lra. }
  now rewrite C.
Qed.

Lemma round2_eq (x y : Q) : x == y -> round2 x = round2 y.
Proof.
  intro E. unfold round2.
  rewrite (round_half_even_eq (x * 100) (y * 100)); [reflexivity|].
  now rewrite E.
Qed.

Lemma round2_near (x : Q) : x - (1 # 200) <= round2 x /\ round2 x <= x + (1 # 200).
Proof.
  unfold round2. rewrite Qred_correct.
  destruct (round_half_even_near (x * 100)) as [H1 H2].
  revert H1 H2. generalize (inject_Z (round_half_even (x * 100))). intros q H1 H2.
  setoid_replace (q / 100) with (q * (1 # 100)) by field.
  split; lra.
Qed.

Lemma round2_hundredths (n : Z) : round2 (inject_Z n / 100) == inject_Z n / 100.
Proof.
  unfold round2. rewrite Qred_correct.
  rewrite (round_half_even_eq (inject_Z n / 100 * 100) (inject_Z n)).
  - rewrite round_half_even_Z. reflexivity.
  - field.
Qed.

Lemma round2_nonneg (x : Q) : 0 <= x -> 0 <= round2 x.
Proof.
  intro H. unfold round2. rewrite Qred_correct.
  assert (Hn : (0 <= round_half_even (x * 100))%Z)
    by (apply round_half_even_nonneg; lra).
  assert (Hq : 0 <= inject_Z (round_half_even (x * 100))).
  { change 0 with (inject_Z 0). now rewrite <- Zle_Qle. }
  revert Hq. generalize (inject_Z (round_half_even (x * 100))). intros q Hq.
  setoid_replace (q / 100) with (q * (1 # 100)) by field.
  lra.
Qed.

Lemma round2_same (t : Q) : round2 (t - t) = 0.
Proof.
  rewrite (round2_eq (t - t) 0) by lra. reflexivity.
Qed.

(** ** The dict *)

Lemma dict_get_None (k : string) (d : Detections) :
  dict_get k d = None <-> ~ In k (keys d).
Proof.
  induction d as [|[k' v] d IH]; cbn.
  - tauto.
  - destruct (String.eqb_spec k k') as [->|N].
    + split; [discriminate | intro H; exfalso; apply H; now left].
    + rewrite IH. split; [intros H [E|E]; [congruence | tauto] | tauto].
Qed.

Lemma dict_get_In (k : string) (v : Session) (d : Detections) :
  dict_get k d = Some v -> In (k, v) d.
Proof.
  induction d as [|[k' v'] d IH]; cbn; [discriminate|].
  destruct (String.eqb_spec k k') as [->|N].
  - intro E. inversion E. now left.
  - intro E. right. now apply IH.
Qed.

Lemma dict_get_set (k : string) (v : Session) (d : Detections) :
  dict_get k (dict_set k v d) = Some v.
Proof.
  induction d as [|[k' v'] d IH]; cbn.
  - now rewrite String.eqb_refl.
  - destruct (String.eqb_spec k k') as [->|N]; cbn.
    + now rewrite String.eqb_refl.
    + destruct (String.eqb_spec k k'); [contradiction | exact IH].
Qed.

Lemma dict_get_set_other (k k' : string) (v : Session) (d : Detections) :
  k' <> k -> dict_get k' (dict_set k v d) = dict_get k' d.
Proof.
  intro N. induction d as [|[k0 v0] d IH]; cbn.
  - destruct (String.eqb_spec k' k); [contradiction | reflexivity].
  - destruct (String.eqb_spec k k0) as [->|N0]; cbn.
    + destruct (String.eqb_spec k' k0); [contradiction | reflexivity].
    + now rewrite IH.
Qed.

Lemma keys_set_old (k : string) (v : Session) (d : Detections) :
  In k (keys d) -> keys (dict_set k v d) = keys d.
Proof.
  induction d as [|[k' v'] d IH]; cbn; [tauto|].
  destruct (String.eqb_spec k k') as [->|N]; cbn.
  - reflexivity.
  - intros [E|H]; [congruence|]. f_equal. now apply IH.
Qed.

Lemma keys_set_new (k : string) (v : Session) (d : Detections) :
  ~ In k (keys d) -> keys (dict_set k v d) = keys d ++ [k].
Proof.
  induction d as [|[k' v'] d IH]; cbn; [reflexivity|].
  destruct (String.eqb_spec k k') as [->|N]; cbn.
  - intro H. exfalso. apply H. now left.
  - intro H. f_equal. apply IH. tauto.
Qed.

Lemma dict_set_In (k k0 : string) (v v0 : Session) (d : Detections) :
  In (k, v) (dict_set k0 v0 d) -> (k, v) = (k0, v0) \/ In (k, v) d.
Proof.
  induction d as [|[k' v'] d IH]; cbn.
  - intros [E|[]]. left. now symmetry.
  - destruct (String.eqb_spec k0 k') as [->|N]; cbn.
    + intros [E|H]; [left; now symmetry | right; now right].
    + intros [E|H]; [right; now left|].
      destruct (IH H) as [E|H']; [now left | right; now right].
Qed.

(** A sighting of a known name, by whether the name has an entry. *)
Lemma record_sighting_new (name : string) (conf t : Q) (d : Detections) :
  name <> "Unknown" -> dict_get name d = None ->
  record_sighting name conf t d
  = dict_set name {| start := t; last_seen := t; confidence := conf |} d.
Proof.
  intros N E. unfold record_sighting. rewrite E.
  destruct (String.eqb_spec name "Unknown"); [contradiction | reflexivity].
Qed.

Lemma record_sighting_old (name : string) (conf t : Q) (d : Detections) (info : Session) :
  name <> "Unknown" -> dict_get name d = Some info ->
  record_sighting name conf t d
  = dict_set name {| start := start info; last_seen := t; confidence := conf |} d.
Proof.
  intros N E. unfold record_sighting. rewrite E.
  destruct (String.eqb_spec name "Unknown"); [contradiction | reflexivity].
Qed.

Lemma log_detections_rows (now day : string) (s : State) :
  List.concat (csv_log (log_detections now day s))
  = List.concat (csv_log s) ++ session_rows now day (detections s).
Proof.
  cbn. destruct (session_rows now day (detections s)) as [|r rows].
  - now rewrite app_nil_r.
  - rewrite concat_app. cbn. now rewrite app_nil_r.
Qed.

(** ** Sessions *)

(** C6, as the code has it.  ["alice"] seen at 0 with confidence 80 and at
    12 with confidence 65 is logged as one row with duration 12 and
    confidence 65.  A further sighting of a name that has an entry keeps its
    place and its start, sets [last_seen] to the new time and replaces the
    confidence.  The duration written is [last_seen - start] rounded to two
    decimals: within 0.005 of the difference, and equal to it when the
    difference is a whole number of hundredths. *)
Theorem latest_sighting_wins (now day : string) :
  session_rows now day
    (record_sighting "alice" 65 12 (record_sighting "alice" 80 0 []))
  = [[Str now; Str "alice"; Num 65; Num 12; Str day]]
  /\ (forall name conf t d info,
        name <> "Unknown" -> dict_get name d = Some info ->
        dict_get name (record_sighting name conf t d)
        = Some {| start := start info; last_seen := t; confidence := conf |}
        /\ keys (record_sighting name conf t d) = keys d)
  /\ (forall s e,
        In e (detections s) ->
        In [Str now; Str (fst e); Num (confidence (snd e));
            Num (round2 (last_seen (snd e) - start (snd e))); Str day]
           (List.concat (csv_log (log_detections now day s))))
  /\ (forall x, x - (1 # 200) <= round2 x /\ round2 x <= x + (1 # 200))
  /\ (forall n : Z, round2 (inject_Z n / 100) == inject_Z n / 100).
Proof.
  split; [reflexivity|]. split; [|split; [|split]].
  - intros name conf t d info N E.
    rewrite (record_sighting_old name conf t d info N E). split.
    + apply dict_get_set.
    + apply keys_set_old. apply dict_get_In in E.
      change name with (fst (name, info)). now apply in_map.
  - intros s e He. rewrite log_detections_rows. apply in_or_app. right.
    change (In (session_row now day e) (session_rows now day (detections s))).
    now apply in_map.
  - apply round2_near.
  - apply round2_hundredths.
Qed.

Lemma latest_sighting_wins_witness :
  let d := record_sighting "alice" 80 0 [] in
  "alice" <> "Unknown"
  /\ dict_get "alice" d = Some {| start := 0; last_seen := 0; confidence := 80 |}
  /\ dict_get "alice" (record_sighting "alice" 65 12 d)
     = Some {| start := 0; last_seen := 12; confidence := 65 |}.
Proof.
  intro d.
  assert (N : "alice" <> "Unknown") by discriminate.
  assert (E : dict_get "alice" d = Some {| start := 0; last_seen := 0; confidence := 80 |})
    by reflexivity.
  split; [exact N|]. split; [exact E|].
  apply (proj1 (proj2 (latest_sighting_wins "" "")) "alice" 65 12 d _ N E).
Defined.

(** C6 fails as stated where it says the duration is [last_seen - start]:
    ["alice"] seen at 0 and at 0.004 is logged with duration 0. *)
Lemma duration_is_rounded :
  let d := record_sighting "alice" 65 (1 # 250) (record_sighting "alice" 80 0 []) in
  dict_get "alice" d = Some {| start := 0; last_seen := 1 # 250; confidence := 65 |}
  /\ session_rows "2025-01-01 08:00:00" "2025-01-01" d
     = [[Str "2025-01-01 08:00:00"; Str "alice"; Num 65; Num 0; Str "2025-01-01"]]
  /\ ~ 0 == (1 # 250) - 0.
Proof. repeat split. discriminate. Qed.

(** C7.  [log_detections] leaves the dict empty, so the next sighting of any
    known name starts a new entry, whose duration is 0; and with an empty
    dict it writes nothing and changes nothing. *)
Theorem flush_clears (now day : string) (s : State) :
  detections (log_detections now day s) = []
  /\ (forall name conf t now' day',
        name <> "Unknown" ->
        let d := record_sighting name conf t (detections (log_detections now day s)) in
        d = [(name, {| start := t; last_seen := t; confidence := conf |})]
        /\ session_rows now' day' d = [[Str now'; Str name; Num conf; Num 0; Str day']])
  /\ (detections s = [] ->
        session_rows now day (detections s) = []
        /\ csv_log (log_detections now day s) = csv_log s
        /\ log_detections now day s = s).
Proof.
  split; [reflexivity|]. split.
  - intros name conf t now' day' N d. subst d.
    cbn [log_detections detections].
    rewrite (record_sighting_new name conf t [] N eq_refl). split; [reflexivity|].
    unfold session_rows, session_row.
    cbn [dict_set map fst snd start last_seen confidence].
    now rewrite round2_same.
  - intro E. destruct s as [a b c d e f g]. cbn in E. subst e.
    repeat split.
Qed.

Lemma flush_clears_witness :
  let s := tick (startup 0) {| results := [("Isuru", 90)]; button := false; now := 10 |} in
  ("Isuru" <> "Unknown"
   /\ record_sighting "Isuru" 70 400
        (detections (log_detections "2025-01-01 08:00:00" "2025-01-01" s))
      = [("Isuru", {| start := 400; last_seen := 400; confidence := 70 |})])
  /\ (detections (startup 0) = []
      /\ csv_log (log_detections "2025-01-01 08:00:00" "2025-01-01" (startup 0))
         = csv_log (startup 0)).
Proof.
  intro s.
  assert (N : "Isuru" <> "Unknown") by discriminate.
  split; split.
  - exact N.
  - apply (proj1 (proj2 (flush_clears "2025-01-01 08:00:00" "2025-01-01" s))
             "Isuru" 70 400 "" "" N).
  - reflexivity.
  - apply (proj2 (proj2 (flush_clears "2025-01-01 08:00:00" "2025-01-01" (startup 0)))).
    reflexivity.
Defined.

(** ** Sequences of sightings *)

Lemma sessions_ok_record (name : string) (c t tmax : Q) (d : Detections) :
  sessions_ok d tmax -> tmax <= t -> sessions_ok (record_sighting name c t d) t.
Proof.
  intros [Hnd Hs] Ht. unfold record_sighting.
  destruct (negb (name =? "Unknown")%string).
  - destruct (dict_get name d) as [info|] eqn:E.
    + split.
      * rewrite keys_set_old; [exact Hnd|].
        apply dict_get_In in E. change name with (fst (name, info)). now apply in_map.
      * intros k v H. apply dict_set_In in H. destruct H as [H|H].
        -- inversion H; subst. cbn.
           apply dict_get_In in E. destruct (Hs _ _ E). split; lra.
        -- destruct (Hs _ _ H). split; lra.
    + apply dict_get_None in E. split.
      * rewrite keys_set_new by exact E.
        apply NoDup_app; [exact Hnd | repeat constructor; intros [] |].
        intros x Hx [<-|[]]. contradiction.
      * intros k v H. apply dict_set_In in H. destruct H as [H|H].
        -- inversion H; subst. cbn. split; lra.
        -- destruct (Hs _ _ H). split; lra.
  - split; [exact Hnd|]. intros k v H. destruct (Hs _ _ H). split; lra.
Qed.

Lemma sessions_ok_ops (ops : list Sighting) :
  forall d tmax,
    sessions_ok d tmax -> nondecreasing_from tmax ops ->
    exists tmax', sessions_ok (record_ops ops d) tmax'.
Proof.
  induction ops as [|o ops IH]; intros d tmax Hok Hm.
  - now exists tmax.
  - destruct Hm as [Ho Hm].
    apply (IH (record_sighting (who o) (conf o) (seen_at o) d) (seen_at o)); [|exact Hm].
    now apply sessions_ok_record with (tmax := tmax).
Qed.

Lemma record_ops_snoc (ops : list Sighting) (o : Sighting) (d : Detections) :
  record_ops (ops ++ [o]) d
  = record_sighting (who o) (conf o) (seen_at o) (record_ops ops d).
Proof. unfold record_ops. now rewrite fold_left_app. Qed.

Lemma sightings_snoc (name : string) (ops : list Sighting) (o : Sighting) :
  sightings name (ops ++ [o])
  = (sightings name ops + if String.eqb (who o) name then 1 else 0)%nat.
Proof.
  unfold sightings. rewrite filter_app, length_app. cbn.
  now destruct (who o =? name)%string.
Qed.

(** A name not seen yet has no entry; a name seen once has an entry that
    starts and ends at the same time. *)
Lemma seen_once (name : string) (ops : list Sighting) :
  name <> "Unknown" ->
  (sightings name ops = 0%nat -> dict_get name (record_ops ops []) = None)
  /\ (sightings name ops = 1%nat ->
      exists v, dict_get name (record_ops ops []) = Some v /\ last_seen v = start v).
Proof.
  intro N. induction ops as [|o ops [IH0 IH1]] using rev_ind.
  - split; [reflexivity | discriminate].
  - rewrite sightings_snoc, record_ops_snoc.
    destruct (String.eqb_spec (who o) name) as [E|D].
    + split; [lia|]. intro H. assert (H0 : sightings name ops = 0%nat) by lia.
      rewrite E, (record_sighting_new name _ _ _ N (IH0 H0)), dict_get_set.
      now eexists.
    + rewrite Nat.add_0_r.
      assert (K : dict_get name (record_sighting (who o) (conf o) (seen_at o)
                                   (record_ops ops []))
                  = dict_get name (record_ops ops [])).
      { unfold record_sighting. destruct (negb _); [|reflexivity].
        destruct (dict_get (who o) _); apply dict_get_set_other; congruence. }
      rewrite K. split; assumption.
Qed.

(** C8, as the code has it.  After any sequence of sightings whose times
    never decrease, no name, compared letter for letter, has two entries;
    every entry has [last_seen >= start]; every duration written is
    [>= 0]; and a known name seen exactly once is written with duration 0. *)
Theorem one_session_per_name (ops : list Sighting) :
  nondecreasing ops ->
  let d := record_ops ops [] in
  NoDup (keys d)
  /\ (forall k v, In (k, v) d -> start v <= last_seen v)
  /\ (forall now day r, In r (session_rows now day d) ->
        exists q, duration_of r = Some q /\ 0 <= q)
  /\ (forall name now day,
        name <> "Unknown" -> sightings name ops = 1%nat ->
        exists v, In (name, v) d
                  /\ duration_of (session_row now day (name, v)) = Some 0).
Proof.
  intros Hm d.
  assert (Hok : exists tmax, sessions_ok d tmax).
  { destruct ops as [|o ops].
    - exists 0. split; [constructor | intros k v []].
    - apply (sessions_ok_ops (o :: ops) [] (seen_at o)).
      + split; [constructor | intros k v []].
      + split; [lra | exact Hm]. }
  destruct Hok as [tmax [Hnd Hs]].
  split; [exact Hnd|]. split; [|split].
  - intros k v H. now destruct (Hs k v H).
  - intros now day r H. apply in_map_iff in H. destruct H as [[k v] [<- H]].
    eexists. split; [reflexivity|]. cbn [snd].
    apply round2_nonneg. destruct (Hs k v H). lra.
  - intros name now day N H1.
    destruct (proj2 (seen_once name ops N) H1) as [v [Hv E]].
    exists v. split; [now apply dict_get_In|].
    unfold duration_of, session_row. cbn [nth_error snd]. rewrite E.
    now rewrite round2_same.
Qed.

Lemma one_session_per_name_witness :
  let ops := [ {| who := "Isuru"; conf := 90; seen_at := 1 |};
               {| who := "Unknown"; conf := 30; seen_at := 2 |};
               {| who := "Isuru"; conf := 80; seen_at := 2 |};
               {| who := "Nimesh"; conf := 70; seen_at := 5 |} ] in
  nondecreasing ops /\ NoDup (keys (record_ops ops [])).
Proof.
  intro ops.
  assert (H : nondecreasing ops) by (simpl; repeat split; discriminate).
  split; [exact H|].
  apply (proj1 (one_session_per_name ops H)).
Defined.

(** C8 fails as stated for names that differ only in case: ["Isuru"] and
    ["isuru"] are the same roster member and get an entry each. *)
Lemma two_sessions_for_one_staff_member :
  let ops := [ {| who := "Isuru"; conf := 90; seen_at := 1 |};
               {| who := "isuru"; conf := 80; seen_at := 2 |} ] in
  nondecreasing ops
  /\ keys (record_ops ops []) = ["Isuru"; "isuru"]
  /\ lower "Isuru" = lower "isuru"
  /\ ~ NoDup (map lower (keys (record_ops ops []))).
Proof.
  intro ops. split; [simpl; repeat split; discriminate|].
  split; [reflexivity|]. split; [reflexivity|].
  intro H. inversion H as [|x l Hn _]; subst. apply Hn. now left.
Qed.

(** ** The CSV file *)

Lemma session_rows_data (now day : string) (d : Detections) :
  Forall (fun r => is_header r = false) (session_rows now day d).
Proof.
  unfold session_rows. apply Forall_map. apply Forall_forall. reflexivity.
Qed.

Lemma control_csv_log (r : Reads) (s : State) : csv_log (control r s) = csv_log s.
Proof.
  unfold control, auto_close, button_control. rewrite draw_results_eq. cbv zeta.
  repeat match goal with
         | |- context [if ?c then _ else _] => destruct c
         end; reflexivity.
Qed.

Lemma header_then_data_log (now day : string) (s : State) :
  header_then_data s -> header_then_data (log_detections now day s).
Proof.
  intros [rows [E F]]. exists (rows ++ session_rows now day (detections s)).
  rewrite log_detections_rows, E. split; [reflexivity|].
  apply Forall_app. split; [exact F | apply session_rows_data].
Qed.

Lemma header_then_data_body (r : Reads) (s : State) :
  header_then_data s -> header_then_data (loop_body r s).
Proof.
  intro H. unfold loop_body, periodic_log.
  assert (Hc : header_then_data (control r s)).
  { unfold header_then_data. now rewrite control_csv_log. }
  destruct (Qgeb _ _); [|exact Hc].
  apply (header_then_data_log (log_now r) (log_day r)) in Hc. exact Hc.
Qed.

Lemma header_then_data_after (its : list Iteration) (now day : string) :
  forall s, header_then_data s -> header_then_data (state_after its now day s).
Proof.
  unfold state_after.
  induction its as [|[|r] its IH]; intros s H; cbn [main_loop].
  - exact H.
  - apply (header_then_data_log now day) in H. exact H.
  - destruct (key_q r).
    + apply (header_then_data_log now day), header_then_data_body, H.
    + apply IH, header_then_data_body, H.
Qed.

Lemma headers_app (f g : list Row) : headers (f ++ g) = (headers f + headers g)%nat.
Proof. unfold headers. now rewrite filter_app, length_app. Qed.

Lemma headers_data (rows : list Row) :
  Forall (fun r => is_header r = false) rows -> headers rows = 0%nat.
Proof.
  unfold headers. induction 1 as [|r rows Hr _ IH]; [reflexivity|].
  cbn. now rewrite Hr.
Qed.

(** C9, as the code has it.  Each run of the script appends the header
    once, before any data row of that run: at every moment of a run the file
    is what it held before, then the header, then data rows only.  A file
    that is new holds one header, in first place; a file with earlier
    content gets one more header after that content. *)
Theorem header_once_per_run
    (before : list Row) (t0 : Q) (its : list Iteration) (now day : string) :
  exists rows,
    csv_file before (state_after its now day (startup t0)) = before ++ header :: rows
    /\ Forall (fun r => is_header r = false) rows
    /\ headers (csv_file before (state_after its now day (startup t0)))
       = S (headers before).
Proof.
  destruct (header_then_data_after its now day (startup t0)) as [rows [E F]].
  { exists []. split; [reflexivity | constructor]. }
  exists rows. unfold csv_file. rewrite E. split; [reflexivity|]. split; [exact F|].
  rewrite headers_app. change (header :: rows) with ([header] ++ rows).
  rewrite headers_app, (headers_data rows F). cbn. lia.
Qed.

(** C9 fails as stated across restarts: a first run logs one row and stops,
    a second run on the same file stops at once; the file then holds two
    headers, the second one after the data row. *)
Lemma header_written_again :
  let r := reads_of {| results := [("Isuru", 90)]; button := false; now := 10 |} in
  let run1 := state_after [Frame r; CameraLost] "2025-01-01 08:00:00" "2025-01-01" (startup 0) in
  let run2 := state_after [CameraLost] "2025-01-01 09:00:00" "2025-01-01" (startup 3600) in
  csv_file (csv_file [] run1) run2
  = [header;
     [Str "2025-01-01 08:00:00"; Str "Isuru"; Num 90; Num 0; Str "2025-01-01"];
     header]
  /\ headers (csv_file (csv_file [] run1) run2) = 2%nat.
Proof. split; reflexivity. Qed.

(** ** Naming the faces of a frame *)









Example ex_match_face :
  match_face ["dulaj"; "isuru"; "nimesh"] [3 # 5; 2 # 5; 7 # 10] = Some ("isuru", 60)
  /\ match_face ["dulaj"; "isuru"; "nimesh"] [3 # 5; 1 # 2; 7 # 10] = Some ("Unknown", 50)
  /\ match_face ["dulaj"; "isuru"] [3 # 5; 2 # 5; 3 # 10] = None.
Proof. repeat split. Qed.

(** ** The latch over a whole run *)

Lemma state_after_invariant (P : State -> Prop) (now day : string) :
  (forall r s, P s -> P (loop_body r s)) ->
  (forall s, P s -> P (finally now day s)) ->
  forall its s, P s -> P (state_after its now day s).
Proof.
  intros Hbody Hfin. unfold state_after.
  induction its as [|[|r] its IH]; intros s H; cbn [main_loop].
  - exact H.
  - now apply Hfin.
  - destruct (key_q r); [apply Hfin | apply IH]; now apply Hbody.
Qed.

Lemma commanded_snoc (l : list Actuation) (c : Actuation) :
  commanded (l ++ [c]) = match c with DoorOpen => true | DoorClose => false end.
Proof. unfold commanded. now rewrite last_last. Qed.

Lemma control_mirrors (r : Reads) (s : State) :
  servo_state s = commanded (pwm s) ->
  servo_state (control r s) = commanded (pwm (control r s)).
Proof.
  intro H. unfold control, auto_close, button_control.
  rewrite draw_results_eq. cbv zeta.
  repeat match goal with
         | |- context [if ?c then _ else _] => destruct c
         end;
    cbn [servo_state pwm open_servo close_servo set_last_button_press];
    rewrite ?commanded_snoc; first [reflexivity | exact H].
Qed.

(** X2.  At every moment of a run, inside the loop or after the [finally]
    block, [servo_state] is the position the servo was last told to take
    (closed when it has been told nothing yet). *)
Theorem servo_state_mirrors_servo
    (t0 : Q) (its : list Iteration) (now day : string) :
  servo_state (state_after its now day (startup t0))
  = commanded (pwm (state_after its now day (startup t0))).
Proof.
  apply (state_after_invariant (fun s => servo_state s = commanded (pwm s))).
  - intros r s H. destruct (loop_body_latch r s) as (-> & _ & _ & ->).
    now apply control_mirrors.
  - intros s _. unfold finally. cbn [servo_state pwm close_servo log_detections].
    now rewrite commanded_snoc.
  - reflexivity.
Qed.

(** X3.  While the button is down at the samples of lines 119 and 163, a
    pass sends no close command, however long ago the last sighting was; an
    open latch stays open. *)
Theorem held_button_blocks_close (r : Reads) (s : State) :
  b_draw r = true -> b_auto r = true ->
  ~ In DoorClose (issued s (loop_body r s))
  /\ (servo_state s = true -> servo_state (loop_body r s) = true).
Proof.
  intros B1 B2. destruct (loop_body_latch r s) as (Hs & _ & _ & Hp).
  rewrite Hs. unfold issued. rewrite Hp.
  unfold control, auto_close, button_control.
  rewrite draw_results_eq, B1, B2. cbv zeta.
  destruct (trusted_detected (faces r)), (servo_state s) eqn:O, (b_main r);
    pass_cases; (split; [issued_simpl; cbn; intuition discriminate|]);
    intros; first [reflexivity | discriminate | assumption].
Qed.

Lemma held_button_blocks_close_witness :
  let s := tick (startup 0) {| results := [("Isuru", 90)]; button := false; now := 10 |} in
  let r := reads_of {| results := []; button := true; now := 100 |} in
  ~ In DoorClose (issued s (loop_body r s))
  /\ (servo_state s = true -> servo_state (loop_body r s) = true).
Proof.
  intros s r. apply (held_button_blocks_close r s); reflexivity.
Defined.

(** ** What a session holds *)

Lemma record_sighting_other (name : string) (o : Sighting) (d : Detections) :
  who o <> name ->
  dict_get name (record_sighting (who o) (conf o) (seen_at o) d) = dict_get name d.
Proof.
  intro N. unfold record_sighting. destruct (negb _); [|reflexivity].
  destruct (dict_get (who o) d); apply dict_get_set_other; congruence.
Qed.

Lemma sightings_of_snoc (name : string) (ops : list Sighting) (o : Sighting) :
  sightings_of name (ops ++ [o])
  = sightings_of name ops ++ (if String.eqb (who o) name then [o] else []).
Proof.
  unfold sightings_of. rewrite filter_app. cbn.
  now destruct (who o =? name)%string.
Qed.

(** X4.  After any sequence of sightings, starting from an empty dict, a
    known name has an entry exactly when it was seen; the entry starts at
    its first sighting, ends at its last one and carries the confidence of
    the last one. *)
Theorem session_spans_first_to_last (ops : list Sighting) (name : string) :
  name <> "Unknown" ->
  dict_get name (record_ops ops [])
  = match sightings_of name ops with
    | [] => None
    | o :: rest =>
        Some {| start := seen_at o;
                last_seen := seen_at (last rest o);
                confidence := conf (last rest o) |}
    end.
Proof.
  intro N. induction ops as [|o ops IH] using rev_ind; [reflexivity|].
  rewrite record_ops_snoc, sightings_of_snoc.
  destruct (String.eqb_spec (who o) name) as [E|D].
  - rewrite E. destruct (sightings_of name ops) as [|o1 rest] eqn:S.
    + rewrite (record_sighting_new name _ _ _ N IH), dict_get_set. reflexivity.
    + rewrite (record_sighting_old name _ _ _ _ N IH), dict_get_set.
      cbn [app start]. now rewrite last_last.
  - rewrite app_nil_r, record_sighting_other by exact D. exact IH.
Qed.

Lemma session_spans_first_to_last_witness :
  let ops := [ {| who := "Isuru"; conf := 90; seen_at := 1 |};
               {| who := "Dulaj"; conf := 60; seen_at := 2 |};
               {| who := "Isuru"; conf := 75; seen_at := 4 |};
               {| who := "Isuru"; conf := 81; seen_at := 9 |} ] in
  "Isuru" <> "Unknown"
  /\ dict_get "Isuru" (record_ops ops [])
     = Some {| start := 1; last_seen := 9; confidence := 81 |}.
Proof.
  intro ops.
  assert (N : "Isuru" <> "Unknown") by discriminate.
  split; [exact N|].
  exact (session_spans_first_to_last ops "Isuru" N).
Defined.

Lemma keys_record_sighting (name : string) (c t : Q) (d : Detections) :
  keys (record_sighting name c t d)
  = if String.eqb name "Unknown" then keys d
    else if in_dec string_dec name (keys d) then keys d
    else keys d ++ [name].
Proof.
  unfold record_sighting. destruct (name =? "Unknown")%string; [reflexivity|].
  cbn [negb]. destruct (dict_get name d) as [info|] eqn:E.
  - apply dict_get_In in E.
    assert (K : In name (keys d)) by (change name with (fst (name, info)); now apply in_map).
    rewrite keys_set_old by exact K.
    destruct (in_dec string_dec name (keys d)); [reflexivity | contradiction].
  - apply dict_get_None in E. rewrite keys_set_new by exact E.
    destruct (in_dec string_dec name (keys d)); [contradiction | reflexivity].
Qed.

(** ** What reaches the file *)

Lemma control_detections (r : Reads) (s : State) :
  detections (control r s) = record_all (t_draw r) (faces r) (detections s).
Proof.
  unfold control, auto_close, button_control. rewrite draw_results_eq. cbv zeta.
  repeat match goal with
         | |- context [if ?c then _ else _] => destruct c
         end; reflexivity.
Qed.

Lemma keys_record_sighting_old (name k : string) (c t : Q) (d : Detections) :
  In k (keys d) -> In k (keys (record_sighting name c t d)).
Proof.
  intro H. rewrite keys_record_sighting.
  destruct (name =? "Unknown")%string; [exact H|].
  destruct (in_dec string_dec name (keys d)); [exact H|].
  apply in_or_app. now left.
Qed.

Lemma keys_record_sighting_new (name : string) (c t : Q) (d : Detections) :
  name <> "Unknown" -> In name (keys (record_sighting name c t d)).
Proof.
  intro N. rewrite keys_record_sighting.
  destruct (String.eqb_spec name "Unknown"); [contradiction|].
  destruct (in_dec string_dec name (keys d)); [assumption|].
  apply in_or_app. right. now left.
Qed.

Lemma keys_record_sighting_inv (name k : string) (c t : Q) (d : Detections) :
  In k (keys (record_sighting name c t d)) ->
  In k (keys d) \/ (k = name /\ name <> "Unknown").
Proof.
  rewrite keys_record_sighting.
  destruct (String.eqb_spec name "Unknown"); [now left|].
  destruct (in_dec string_dec name (keys d)); [now left|].
  intro H. apply in_app_or in H. destruct H as [H|[<-|[]]]; [now left | now right].
Qed.

Lemma record_all_cons (t : Q) (n : string) (c : Q) (fs : list (string * Q))
    (d : Detections) :
  record_all t ((n, c) :: fs) d = record_all t fs (record_sighting n c t d).
Proof. reflexivity. Qed.

Lemma keys_record_all (t : Q) (fs : list (string * Q)) :
  forall d k, In k (keys (record_all t fs d)) <-> In k (keys d) \/ In k (named fs).
Proof.
  induction fs as [|[n c] fs IH]; intros d k.
  - cbn. tauto.
  - rewrite record_all_cons, IH. unfold named. cbn [map filter fst].
    fold (named fs). split.
    + intros [H|H].
      * apply keys_record_sighting_inv in H. destruct H as [H|[-> N]]; [now left|].
        right. destruct (String.eqb_spec n "Unknown"); [contradiction|]. now left.
      * right. destruct (negb _); [now right | exact H].
    + intros [H|H].
      * left. now apply keys_record_sighting_old.
      * destruct (String.eqb_spec n "Unknown") as [E|N]; cbn [negb] in H.
        -- now right.
        -- destruct H as [<-|H]; [left; now apply keys_record_sighting_new | now right].
Qed.

(** A name is kept when it is a key of the dict or the name of a row
    already appended. *)
Lemma kept_control (r : Reads) (s : State) (l : list string) :
  (forall name, In name l ->
     In name (keys (detections s))
     \/ exists row, In row (List.concat (csv_log s)) /\ name_of row = Some name) ->
  forall name, In name (l ++ named (faces r)) ->
    In name (keys (detections (control r s)))
    \/ exists row, In row (List.concat (csv_log (control r s))) /\ name_of row = Some name.
Proof.
  intros H name Hin. rewrite control_detections, control_csv_log, keys_record_all.
  apply in_app_or in Hin. destruct Hin as [Hin|Hin].
  - destruct (H name Hin) as [K|K]; [left; now left | now right].
  - left. now right.
Qed.

Lemma logged_flush (now day : string) (s : State) (l : list string) :
  (forall name, In name l ->
     In name (keys (detections s))
     \/ exists row, In row (List.concat (csv_log s)) /\ name_of row = Some name) ->
  forall name, In name l ->
    exists row, In row (List.concat (csv_log (log_detections now day s)))
                /\ name_of row = Some name.
Proof.
  intros H name Hin. rewrite log_detections_rows.
  destruct (H name Hin) as [K|(row & Hr & Hn)].
  - unfold keys in K. apply in_map_iff in K. destruct K as (e & <- & He).
    exists (session_row now day e). split; [|reflexivity].
    apply in_or_app. right. now apply in_map.
  - exists row. split; [apply in_or_app; now left | exact Hn].
Qed.

Lemma kept_body (r : Reads) (s : State) (l : list string) :
  (forall name, In name l ->
     In name (keys (detections s))
     \/ exists row, In row (List.concat (csv_log s)) /\ name_of row = Some name) ->
  forall name, In name (l ++ named (faces r)) ->
    In name (keys (detections (loop_body r s)))
    \/ exists row, In row (List.concat (csv_log (loop_body r s))) /\ name_of row = Some name.
Proof.
  intros H name Hin. pose proof (kept_control r s l H) as Hc.
  unfold loop_body, periodic_log. destruct (Qgeb _ _).
  - right. cbn [csv_log set_last_log_time].
    now apply (logged_flush (log_now r) (log_day r) (control r s) (l ++ named (faces r))).
  - now apply Hc.
Qed.

Lemma kept_until_exit (its : list Iteration) :
  forall s s' l,
    (forall name, In name l ->
       In name (keys (detections s))
       \/ exists row, In row (List.concat (csv_log s)) /\ name_of row = Some name) ->
    main_loop its s = Exited s' ->
    forall name, In name (l ++ seen_in its) ->
      In name (keys (detections s'))
      \/ exists row, In row (List.concat (csv_log s')) /\ name_of row = Some name.
Proof.
  induction its as [|[|r] its IH]; intros s s' l H E; cbn [main_loop seen_in] in *.
  - discriminate.
  - inversion E; subst. now rewrite app_nil_r.
  - pose proof (kept_body r s l H) as Hb. destruct (key_q r).
    + inversion E; subst. now rewrite app_nil_r.
    + rewrite app_assoc. now apply (IH (loop_body r s)).
Qed.

(** X5.  When the script stops, every name other than ["Unknown"] that was
    seen in a frame of the run is the name of a row of the file: sessions
    still open at the end are written by the [finally] block. *)
Theorem every_named_face_is_logged
    (t0 : Q) (its : list Iteration) (now day : string) (f : State) :
  script t0 its now day = Some f ->
  forall name, In name (seen_in its) ->
    exists row, In row (csv_file [] f) /\ name_of row = Some name.
Proof.
  unfold script. destruct (main_loop its (startup t0)) as [s'|s'] eqn:E; [discriminate|].
  intros F name Hin. inversion F; subst. cbn [csv_file app].
  unfold finally. cbn [csv_log close_servo].
  apply (logged_flush now day s' (seen_in its)); [|exact Hin].
  apply (kept_until_exit its (startup t0) s' []); [intros n []|exact E].
Qed.

Lemma every_named_face_is_logged_witness :
  let r := reads_of {| results := [("Kamal", 77); ("Unknown", 20)];
                       button := false; now := 10 |} in
  exists f row,
    script 0 [Frame r; CameraLost] "2025-01-01 08:00:00" "2025-01-01" = Some f
    /\ In row (csv_file [] f) /\ name_of row = Some "Kamal".
Proof.
  intro r.
  exists (finally "2025-01-01 08:00:00" "2025-01-01" (loop_body r (startup 0))).
  assert (E : script 0 [Frame r; CameraLost] "2025-01-01 08:00:00" "2025-01-01"
              = Some (finally "2025-01-01 08:00:00" "2025-01-01" (loop_body r (startup 0))))
    by reflexivity.
  destruct (every_named_face_is_logged 0 [Frame r; CameraLost] _ _ _ E "Kamal")
    as (row & Hr & Hn).
  - now left.
  - exists row. split; [exact E|]. split; assumption.
Defined.

(** ** Further properties of the pieces *)

Lemma control_last_log_time (r : Reads) (s : State) :
  last_log_time (control r s) = last_log_time s.
Proof.
  unfold control, auto_close, button_control. rewrite draw_results_eq. cbv zeta.
  repeat match goal with
         | |- context [if ?c then _ else _] => destruct c
         end; reflexivity.
Qed.

(** X6.  A pass flushes exactly when [LOG_INTERVAL] or more has passed
    since [last_log_time].  It then writes the sessions as they are after
    this frame's faces, empties the dict and sets [last_log_time] to the
    clock read after the flush; otherwise file and [last_log_time] stay as
    they are and the dict holds this frame's faces. *)
Theorem periodic_flush (r : Reads) (s : State) :
  (LOG_INTERVAL <= t_log r - last_log_time s ->
     detections (loop_body r s) = []
     /\ last_log_time (loop_body r s) = t_logged r
     /\ List.concat (csv_log (loop_body r s))
        = List.concat (csv_log s)
          ++ session_rows (log_now r) (log_day r)
               (record_all (t_draw r) (faces r) (detections s)))
  /\ (t_log r - last_log_time s < LOG_INTERVAL ->
     detections (loop_body r s) = record_all (t_draw r) (faces r) (detections s)
     /\ last_log_time (loop_body r s) = last_log_time s
     /\ csv_log (loop_body r s) = csv_log s).
Proof.
  unfold loop_body, periodic_log, Qgeb. rewrite control_last_log_time.
  split; intro H.
  - apply Qle_bool_iff in H. rewrite H.
    cbn [detections last_log_time csv_log set_last_log_time].
    rewrite log_detections_rows, control_csv_log, control_detections.
    repeat split.
  - apply Qlt_not_le in H. rewrite <- Qle_bool_iff in H.
    apply not_true_is_false in H. rewrite H.
    now rewrite control_detections, control_last_log_time, control_csv_log.
Qed.

Lemma periodic_flush_witness :
  let r := {| faces := [("Isuru", 90)];
              t_draw := 400; t_open_draw := 400; b_draw := false;
              b_main := false; t_button := 400; t_open_button := 400;
              t_auto := 400; b_auto := false;
              t_log := 400; log_now := "2025-01-01 08:05:00"; log_day := "2025-01-01";
              t_logged := 401; key_q := false |} in
  LOG_INTERVAL <= t_log r - last_log_time (startup 50)
  /\ detections (loop_body r (startup 50)) = []
  /\ last_log_time (loop_body r (startup 50)) = 401
  /\ List.concat (csv_log (loop_body r (startup 50)))
     = [header;
        [Str "2025-01-01 08:05:00"; Str "Isuru"; Num 90; Num 0; Str "2025-01-01"]].
Proof.
  intro r.
  assert (H : LOG_INTERVAL <= t_log r - last_log_time (startup 50)) by discriminate.
  split; [exact H|].
  destruct (proj1 (periodic_flush r (startup 50)) H) as (H1 & H2 & H3).
  split; [exact H1|]. split; [exact H2 | exact H3].
Defined.
